(** * AuthService (src/app/services/auth.service.ts)

    A shallow embedding of the Angular session service: the browser's
    [localStorage] is a finite map from keys to strings, the two
    [BehaviorSubject]s are cells holding their latest value, an HTTP
    exchange is given by the notification the request observable delivers,
    and the [any]-typed failure object handed to [handleError] is a
    JavaScript data value.  Code that can raise a [TypeError] runs in a
    small completion monad. *)

From Stdlib Require Import ZArith Ascii String List.
From stdpp Require Import base option gmap strings list pretty.

Open Scope string_scope.

(** ** JavaScript data values *)

Module Js.

(** The values a failure object is made of: what [JSON.parse] yields for a
    response body, plus [undefined].  Numbers are the integral ones that
    JavaScript prints in plain decimal (HTTP status codes and the like);
    objects are plain records of own properties, the first binding of a
    key being the one read. *)
#[warnings="-register-all"]
Inductive Value :=
| Undefined
| Null
| Bool (b : bool)
| Num (n : Z)
| Str (s : string)
| Arr (elems : list Value)
| Obj (props : list (string * Value)).

(** Outcome of evaluating an expression that may throw. *)
Inductive completion (A : Type) :=
| Normal (a : A)
| ThrowTypeError.
Arguments Normal {A} a.
Arguments ThrowTypeError {A}.

#[global] Instance completion_ret : MRet completion := @Normal.
#[global] Instance completion_bind : MBind completion :=
  fun A B f c => match c with Normal a => f a | ThrowTypeError => ThrowTypeError end.

(** [xs.map(f)], the callback run left to right, the first throw ending it. *)
Fixpoint array_map {A B} (f : A -> completion B) (xs : list A) : completion (list B) :=
  match xs with
  | [] => Normal []
  | x :: xs' => y ← f x; ys ← array_map f xs'; Normal (y :: ys)
  end.

Definition nullish (v : Value) : bool :=
  match v with Undefined | Null => true | _ => false end.

(** ToBoolean: [!!v], and the test of [if (v)] and [v || w]. *)
Definition truthy (v : Value) : bool :=
  match v with
  | Undefined | Null => false
  | Bool b => b
  | Num n => negb (n =? 0)%Z
  | Str s => negb (String.eqb s "")
  | Arr _ | Obj _ => true
  end.

Fixpoint own_property (k : string) (props : list (string * Value)) : Value :=
  match props with
  | [] => Undefined
  | (k', v) :: rest => if String.eqb k k' then v else own_property k rest
  end.

(** [v.k] for the data properties this service reads ([error], [msg],
    [errors], [status]): only an object can carry one, and reading a
    property of [undefined] or [null] throws. *)
Definition get (v : Value) (k : string) : completion Value :=
  match v with
  | Undefined | Null => ThrowTypeError
  | Obj props => Normal (own_property k props)
  | _ => Normal Undefined
  end.

(** [v?.k]: [undefined] when [v] is nullish, which also short-circuits the
    rest of a chain [v?.k?.k']. *)
Definition opt_get (v : Value) (k : string) : Value :=
  match v with
  | Obj props => own_property k props
  | _ => Undefined
  end.

Definition isArray (v : Value) : bool :=
  match v with Arr _ => true | _ => false end.

(** [v === 0]. *)
Definition strict_eq_zero (v : Value) : bool :=
  match v with Num n => (n =? 0)%Z | _ => false end.

(** ToString on data values; an array prints as its elements joined with a
    comma, nullish elements printing as nothing.  The function is total:
    it does not cover the conversions that throw in JavaScript (an object
    with an own [toString] or [valueOf] member) nor the numbers printed
    with an exponent, and the properties of this file convert strings
    only. *)
Fixpoint ToString (v : Value) : string :=
  match v with
  | Undefined => "undefined"
  | Null => "null"
  | Bool true => "true"
  | Bool false => "false"
  | Num n => pretty n
  | Str s => s
  | Arr elems =>
      String.concat ","
        (List.map (fun e => match e with
                            | Undefined | Null => ""
                            | _ => ToString e
                            end) elems)
  | Obj _ => "[object Object]"
  end.

(** [xs.join(sep)]. *)
Definition join (sep : string) (xs : list Value) : string :=
  String.concat sep
    (List.map (fun e => if nullish e then "" else ToString e) xs).

End Js.

(** ** Data model *)

Record User := {
  name : string;
  email : string;
  role : string;
}.

Record AuthResponse := {
  token : string;
  user : User;
}.

(** ** Collaborators *)

(** [JSON.stringify] on a [User], taken as an object whose own members
    are [name], [email] and [role], in that order.  Strings are byte
    sequences; a quoted string escapes the double quote, the backslash and
    the control characters, and leaves every other byte alone.  The
    properties of this file use of the result only that it is the entry
    stored for the user and that it is not empty. *)
Module JSON.

Definition dquote : ascii := "034".
Definition backslash : ascii := "092".

Definition hex (n : N) : ascii :=
  ascii_of_N (if (n <? 10)%N then 48 + n else 87 + n).

Definition quote_char (c : ascii) : string :=
  let n := N_of_ascii c in
  if (n =? 8)%N then String backslash "b"
  else if (n =? 9)%N then String backslash "t"
  else if (n =? 10)%N then String backslash "n"
  else if (n =? 12)%N then String backslash "f"
  else if (n =? 13)%N then String backslash "r"
  else if (n =? 34)%N then String backslash (String dquote "")
  else if (n =? 92)%N then String backslash (String backslash "")
  else if (n <? 32)%N then
    String backslash ("u00" +:+ String (hex (n / 16)) (String (hex (n mod 16)) ""))
  else String c "".

Fixpoint quote_body (s : string) : string :=
  match s with
  | EmptyString => ""
  | String c rest => quote_char c +:+ quote_body rest
  end.

Definition quote (s : string) : string :=
  String dquote (quote_body s +:+ String dquote "").

Definition member (k v : string) : string := quote k +:+ ":" +:+ quote v.

Definition stringify (u : User) : string :=
  "{" +:+ member "name" (name u) +:+ "," +:+ member "email" (email u)
      +:+ "," +:+ member "role" (role u) +:+ "}".

End JSON.

(** A [BehaviorSubject]: the cell a new subscriber reads on subscription. *)
Record BehaviorSubject (A : Type) := { value : A }.
Arguments value {A} _.

Definition next {A} (v : A) (_ : BehaviorSubject A) : BehaviorSubject A :=
  {| value := v |}.

(** What the request observable of [http.post] delivers to the pipe. *)
Inductive Notification :=
| Response (res : AuthResponse)
| Failure (error : Js.Value).

(** What [new Error(message)] keeps of its argument. *)
Record Error := { message : string }.

Definition new_Error (msg : Js.Value) : Error := {| message := Js.ToString msg |}.

(** What a subscriber of [register] or [login] observes. *)
Inductive Outcome :=
| Emitted (res : AuthResponse)
| Errored (e : Error)
| ErroredTypeError.

(** ** The service *)

(** The browser globals the service touches ([localStorage], a store that
    takes every write, and the failures passed to [console.error]) and its
    two private subjects. *)
Record State := {
  localStorage : gmap string string;
  console : list Js.Value;
  authStatusSubject : BehaviorSubject bool;
  currentUserSubject : BehaviorSubject (option User);
}.

Definition setItem (k v : string) (s : State) : State :=
  {| localStorage := <[k := v]> (localStorage s);
     console := console s;
     authStatusSubject := authStatusSubject s;
     currentUserSubject := currentUserSubject s |}.

Definition removeItem (k : string) (s : State) : State :=
  {| localStorage := delete k (localStorage s);
     console := console s;
     authStatusSubject := authStatusSubject s;
     currentUserSubject := currentUserSubject s |}.

Definition getItem (k : string) (s : State) : option string :=
  localStorage s !! k.

Definition authStatus_next (b : bool) (s : State) : State :=
  {| localStorage := localStorage s;
     console := console s;
     authStatusSubject := next b (authStatusSubject s);
     currentUserSubject := currentUserSubject s |}.

Definition currentUser_next (u : option User) (s : State) : State :=
  {| localStorage := localStorage s;
     console := console s;
     authStatusSubject := authStatusSubject s;
     currentUserSubject := next u (currentUserSubject s) |}.

Definition console_error (v : Js.Value) (s : State) : State :=
  {| localStorage := localStorage s;
     console := console s ++ [v];
     authStatusSubject := authStatusSubject s;
     currentUserSubject := currentUserSubject s |}.

(** The latest value of [authStatus$]. *)
Definition authStatus (s : State) : bool := value (authStatusSubject s).

Definition saveSession (response : AuthResponse) (s : State) : State :=
  let s := setItem "auth-token" (token response) s in
  let s := setItem "user" (JSON.stringify (user response)) s in
  let s := authStatus_next true s in
  currentUser_next (Some (user response)) s.

Definition getToken (s : State) : option string := getItem "auth-token" s.

Definition getUser (s : State) : option User := value (currentUserSubject s).

(** [this.getUser()?.role || null]: a role that is falsy, that is the
    empty string, gives [null] like a missing user does. *)
Definition getUserRole (s : State) : option string :=
  match getUser s with
  | None => None
  | Some u => if Js.truthy (Js.Str (role u)) then Some (role u) else None
  end.

(** [!!localStorage.getItem('auth-token')]. *)
Definition hasToken (s : State) : bool :=
  match getItem "auth-token" s with
  | None => false
  | Some t => Js.truthy (Js.Str t)
  end.

Definition isAuthenticated (s : State) : bool := hasToken s.

Definition logout (s : State) : State :=
  let s := removeItem "auth-token" s in
  let s := removeItem "user" s in
  let s := authStatus_next false s in
  currentUser_next None s.

Definition generic_message : string :=
  "Something went wrong. Please try again later.".

Definition connectivity_message : string :=
  "Unable to connect to the server. Check your internet connection or CORS policy.".

(** [handleError(error)]: the message is chosen, the failure is logged and
    the error the returned observable fails with is built.  A throw while
    choosing the message leaves before the log. *)
Definition handleError (error : Js.Value) (s : State) : Js.completion (State * Error) :=
  message ←
    (if Js.truthy (Js.opt_get (Js.opt_get error "error") "msg") then
       inner ← Js.get error "error";
       Js.get inner "msg"
     else if Js.isArray (Js.opt_get (Js.opt_get error "error") "errors") then
       inner ← Js.get error "error";
       errors ← Js.get inner "errors";
       match errors with
       | Js.Arr elems =>
           msgs ← Js.array_map (fun e => Js.get e "msg") elems;
           mret (Js.Str (Js.join ", " msgs))
       | _ => Js.ThrowTypeError
       end
     else
       status ← Js.get error "status";
       if Js.strict_eq_zero status then mret (Js.Str connectivity_message)
       else mret (Js.Str generic_message));
  mret (console_error error s, new_Error message).

(** The pipe both requests go through: [tap(res => this.saveSession(res))]
    then [catchError(this.handleError)]. *)
Definition pipe (reply : Notification) (s : State) : State * Outcome :=
  match reply with
  | Response res => (saveSession res s, Emitted res)
  | Failure error =>
      match handleError error s with
      | Js.Normal (s', e) => (s', Errored e)
      | Js.ThrowTypeError => (s, ErroredTypeError)
      end
  end.

Record RegisterForm := {
  form_name : string;
  form_email : string;
  form_password : string;
}.

(** [register(user)], [reply] being what the POST to [/register] delivers. *)
Definition register (form : RegisterForm) (reply : Notification) (s : State)
  : State * Outcome :=
  pipe reply s.

(** [login(email, password)], [reply] being what the POST to [/login]
    delivers. *)
Definition login (email password : string) (reply : Notification) (s : State)
  : State * Outcome :=
  pipe reply s.

(** ** Sample values *)

(** The service as constructed over an empty store. *)
Definition cold_start : State :=
  {| localStorage := ∅;
     console := [];
     authStatusSubject := {| value := false |};
     currentUserSubject := {| value := None |} |}.

Definition alice : User :=
  {| name := "Alice"; email := "alice@example.org"; role := "admin" |}.

Definition guest : User :=
  {| name := "Guest"; email := "guest@example.org"; role := "" |}.

Definition alice_response : AuthResponse := {| token := "t0k3n"; user := alice |}.

Definition blank_token_response : AuthResponse := {| token := ""; user := alice |}.

Definition alice_form : RegisterForm :=
  {| form_name := "Alice"; form_email := "alice@example.org"; form_password := "pw" |}.

(** [{error: {msg: "Email taken"}}] *)
Definition email_taken_failure : Js.Value :=
  Js.Obj [("error", Js.Obj [("msg", Js.Str "Email taken")])].

(** [{error: {msg: ""}}] *)
Definition blank_msg_failure : Js.Value :=
  Js.Obj [("error", Js.Obj [("msg", Js.Str "")])].

(** [{error: {errors: [{msg: "A"}, {msg: "B"}]}}] *)
Definition field_errors_failure : Js.Value :=
  Js.Obj [("error",
           Js.Obj [("errors", Js.Arr [Js.Obj [("msg", Js.Str "A")];
                                      Js.Obj [("msg", Js.Str "B")]])])].

(** [{error: {errors: []}}] *)
Definition no_field_errors_failure : Js.Value :=
  Js.Obj [("error", Js.Obj [("errors", Js.Arr [])])].

(** [{error: <ProgressEvent>, status: 0}] *)
Definition offline_failure : Js.Value :=
  Js.Obj [("error", Js.Obj [("isTrusted", Js.Bool true)]); ("status", Js.Num 0)].


(** ** Vocabulary of the properties *)

(** The server-supplied message field of a failure, [error.error.msg], and
    its array of field-level errors, [error.error.errors]; [Js.Undefined]
    when absent. *)
Definition server_msg (error : Js.Value) : Js.Value :=
  Js.opt_get (Js.opt_get error "error") "msg".

Definition field_errors (error : Js.Value) : Js.Value :=
  Js.opt_get (Js.opt_get error "error") "errors".

(** A field-level error object whose [msg] is the string [m]. *)
Definition field_error (e : Js.Value) (m : string) : Prop :=
  ∃ props, e = Js.Obj props ∧ Js.own_property "msg" props = Js.Str m.

(** The session-state invariant: the token entry is stored if and only if
    the user entry is. *)
Definition session_consistent (s : State) : Prop :=
  is_Some (getItem "auth-token" s) ↔ is_Some (getItem "user" s).

(** The operations of the module, and the states a sequence of them goes
    through. *)
Inductive Operation :=
| OpSaveSession (response : AuthResponse)
| OpLogout
| OpRegister (form : RegisterForm) (reply : Notification)
| OpLogin (email password : string) (reply : Notification).

Definition step (op : Operation) (s : State) : State :=
  match op with
  | OpSaveSession response => saveSession response s
  | OpLogout => logout s
  | OpRegister form reply => (register form reply s).1
  | OpLogin email password reply => (login email password reply s).1
  end.

Fixpoint states_after (ops : list Operation) (s : State) : list State :=
  match ops with
  | [] => []
  | op :: rest => step op s :: states_after rest (step op s)
  end.

(** ** Construction *)

Section Construction.

(** [JSON.parse] on a stored user entry: the value read, [null] included,
    or [None] when it throws a [SyntaxError]. *)
Variable JSON_parse : string → option (option User).

(** [getStoredUser()]: an entry that is missing or falsy, that is empty, is
    not parsed. *)
Definition getStoredUser (s : State) : option (option User) :=
  match getItem "user" s with
  | None => Some None
  | Some raw => if Js.truthy (Js.Str raw) then JSON_parse raw else Some None
  end.

(** The field initialisers of a new [AuthService], run over the browser
    globals of [s]: first [authStatusSubject], then [currentUserSubject],
    whose initialiser may throw.  The subjects of [s] belong to an earlier
    instance and are not read. *)
Definition construct (s : State) : option State :=
  let authStatus := {| value := hasToken s |} in
  stored ← getStoredUser s;
  Some {| localStorage := localStorage s;
          console := console s;
          authStatusSubject := authStatus;
          currentUserSubject := {| value := stored |} |}.

End Construction.

(** ** A sample reader of stored users *)

(** A reader for the strings [JSON.stringify] above writes for a [User];
    the sample [JSON.parse] of the construction examples is built on it. *)
Module Reader.

Definition unhex (c : ascii) : option N :=
  let n := N_of_ascii c in
  if ((48 <=? n) && (n <=? 57))%N then Some (n - 48)%N
  else if ((97 <=? n) && (n <=? 102))%N then Some (n - 87)%N
  else None.

Definition unescape (c : ascii) : option ascii :=
  let n := N_of_ascii c in
  if (n =? 98)%N then Some "008"%char
  else if (n =? 116)%N then Some "009"%char
  else if (n =? 110)%N then Some "010"%char
  else if (n =? 102)%N then Some "012"%char
  else if (n =? 114)%N then Some "013"%char
  else if (n =? 34)%N then Some JSON.dquote
  else if (n =? 92)%N then Some JSON.backslash
  else None.

(** The characters up to the closing quote, unescaped, and what follows
    that quote. *)
Fixpoint read_quoted (s : string) : option (string * string) :=
  match s with
  | EmptyString => None
  | String c rest =>
      if Ascii.eqb c JSON.dquote then Some ("", rest)
      else if Ascii.eqb c JSON.backslash then
        match rest with
        | EmptyString => None
        | String e rest1 =>
            if Ascii.eqb e "u" then
              match rest1 with
              | String z1 (String z2 (String h (String l rest2))) =>
                  if Ascii.eqb z1 "0" && Ascii.eqb z2 "0" then
                    hi ← unhex h;
                    lo ← unhex l;
                    r ← read_quoted rest2;
                    Some (String (ascii_of_N (16 * hi + lo)) r.1, r.2)
                  else None
              | _ => None
              end
            else
              c' ← unescape e;
              r ← read_quoted rest1;
              Some (String c' r.1, r.2)
        end
      else
        r ← read_quoted rest;
        Some (String c r.1, r.2)
  end.

Fixpoint strip_prefix (p s : string) : option string :=
  match p, s with
  | EmptyString, _ => Some s
  | String a p', String b s' => if Ascii.eqb a b then strip_prefix p' s' else None
  | String _ _, EmptyString => None
  end.

(** The text that precedes the value of member [k], opening quote included. *)
Definition opening (k : string) : string :=
  JSON.quote k +:+ ":" +:+ String JSON.dquote "".

Definition read_user (s : string) : option User :=
  s ← strip_prefix ("{" +:+ opening "name") s;
  n ← read_quoted s;
  s ← strip_prefix ("," +:+ opening "email") n.2;
  e ← read_quoted s;
  s ← strip_prefix ("," +:+ opening "role") e.2;
  r ← read_quoted s;
  if String.eqb r.2 "}" then Some {| name := n.1; email := e.1; role := r.1 |}
  else None.

(** A sample [JSON.parse]: it reads the strings [read_user] reads and
    throws on every other one. *)
Definition parse (raw : string) : option (option User) :=
  u ← read_user raw; Some (Some u).

End Reader.

(** ** More sample values *)

(** [{error: {errors: [null]}}] *)
Definition null_field_error_failure : Js.Value :=
  Js.Obj [("error", Js.Obj [("errors", Js.Arr [Js.Null])])].

(** [{error: {msg: "", errors: [{msg: "A"}, {param: "email"}, {msg: null}]},
      status: 0}] *)
Definition mixed_errors_failure : Js.Value :=
  Js.Obj [("error",
           Js.Obj [("msg", Js.Str "");
                   ("errors", Js.Arr [Js.Obj [("msg", Js.Str "A")];
                                      Js.Obj [("param", Js.Str "email")];
                                      Js.Obj [("msg", Js.Null)]])]);
          ("status", Js.Num 0)].

(** ** More vocabulary *)

(** The failures on which [handleError] itself throws: nothing to read
    [status] from, or a field-error array with a nullish element. *)
Definition unreadable (error : Js.Value) : Prop :=
  Js.nullish error = true
  ∨ (Js.truthy (server_msg error) = false
     ∧ ∃ elems, field_errors error = Js.Arr elems
                ∧ Exists (λ e, Js.nullish e = true) elems).

(** What an element of the field-error array contributes to the joined
    message: its [msg] when that is a string, nothing when the element is
    not nullish and has no [msg] or a nullish one. *)
Definition segment (e : Js.Value) (seg : string) : Prop :=
  Js.nullish e = false
  ∧ (Js.opt_get e "msg" = Js.Str seg
     ∨ (Js.nullish (Js.opt_get e "msg") = true ∧ seg = "")).

(** A value whose conversion to a string cannot throw. *)
Definition primitive (v : Js.Value) : bool :=
  match v with Js.Arr _ | Js.Obj _ => false | _ => true end.

(** The failures whose field-error array, when that branch is taken, holds
    only primitive [msg] values, so that [join] has nothing to throw on. *)
Definition joinable (error : Js.Value) : Prop :=
  ∀ elems, Js.truthy (server_msg error) = false →
           field_errors error = Js.Arr elems →
           Forall (λ e, primitive (Js.opt_get e "msg") = true) elems.


(** The broadcast flag and the storage-derived check agree, or the flag is
    set over a stored empty token. *)
Definition flag_follows_store (s : State) : Prop :=
  authStatus s = isAuthenticated s
  ∨ (authStatus s = true ∧ getToken s = Some "").

(** The cached user is the one whose serialisation is stored. *)
Definition user_mirrors_store (s : State) : Prop :=
  getItem "user" s = JSON.stringify <$> getUser s.

(** ** Storage and subject lemmas *)

Lemma saveSession_storage response s k :
  getItem k (saveSession response s) =
    if decide (k = "user") then Some (JSON.stringify (user response))
    else if decide (k = "auth-token") then Some (token response)
    else getItem k s.
Proof.
  unfold saveSession, getItem; simpl.
  repeat case_decide; subst; simplify_map_eq; done.
Qed.

Lemma logout_storage s k :
  getItem k (logout s) =
    if decide (k = "user") then None
    else if decide (k = "auth-token") then None
    else getItem k s.
Proof.
  unfold logout, getItem; simpl.
  repeat case_decide; subst; simplify_map_eq; done.
Qed.

Lemma truthy_Str s : Js.truthy (Js.Str s) = true ↔ s ≠ "".
Proof.
  simpl. rewrite negb_true_iff. split.
  - intros H ->. by rewrite String.eqb_refl in H.
  - intros H. by apply String.eqb_neq.
Qed.

(** ** Session properties *)

(** C1: after [saveSession] on a response, which is what a successful
    [register] or [login] runs, [getToken()] returns the response's token
    and [getUser()] returns the response's user. *)
Theorem saveSession_getToken_getUser (response : AuthResponse) (s : State)
    (form : RegisterForm) (email password : string) :
  (getToken (saveSession response s) = Some (token response)
   ∧ getUser (saveSession response s) = Some (user response))
  ∧ (let after := (register form (Response response) s).1 in
     getToken after = Some (token response) ∧ getUser after = Some (user response))
  ∧ (let after := (login email password (Response response) s).1 in
     getToken after = Some (token response) ∧ getUser after = Some (user response)).
Proof.
  assert (getToken (saveSession response s) = Some (token response)
          ∧ getUser (saveSession response s) = Some (user response)) as H.
  { split; [| done].
    unfold getToken. rewrite saveSession_storage.
    by rewrite decide_False, decide_True. }
  by repeat split; try apply H.
Qed.

(** C2: whatever the session state, after [logout()] the token and the
    user are gone and the latest value of the authenticated stream is
    false. *)
Theorem logout_clears (s : State) :
  getToken (logout s) = None
  ∧ getUser (logout s) = None
  ∧ authStatus (logout s) = false.
Proof.
  repeat split.
  unfold getToken. rewrite logout_storage.
  by rewrite decide_False, decide_True.
Qed.

(** C3, as stated, fails on a response whose token is the empty string:
    the stored token is falsy. *)
Lemma isAuthenticated_blank_token :
  isAuthenticated (saveSession blank_token_response cold_start) = false
  ∧ isAuthenticated (register alice_form (Response blank_token_response) cold_start).1 ≠ true.
Proof. split; [reflexivity | vm_compute; discriminate]. Qed.

(** C3 (amended): for every response whose token is not the empty string,
    [isAuthenticated()] is true right after [saveSession], hence right
    after a successful [register] or [login]; and it is false right after
    [logout()]. *)
Theorem isAuthenticated_after (response : AuthResponse) (s : State)
    (form : RegisterForm) (email password : string) :
  token response ≠ "" →
  isAuthenticated (saveSession response s) = true
  ∧ isAuthenticated (register form (Response response) s).1 = true
  ∧ isAuthenticated (login email password (Response response) s).1 = true
  ∧ isAuthenticated (logout (saveSession response s)) = false
  ∧ isAuthenticated (logout s) = false.
Proof.
  intros Htok.
  assert (isAuthenticated (saveSession response s) = true) as Hin.
  { unfold isAuthenticated, hasToken. rewrite saveSession_storage.
    rewrite decide_False, decide_True by done. by apply truthy_Str. }
  assert (∀ s', isAuthenticated (logout s') = false) as Hout.
  { intros s'. unfold isAuthenticated, hasToken. rewrite logout_storage.
    by rewrite decide_False, decide_True. }
  by repeat split.
Qed.

Lemma isAuthenticated_after_witness :
  token alice_response ≠ ""
  ∧ isAuthenticated (saveSession alice_response cold_start) = true
  ∧ isAuthenticated (logout (saveSession alice_response cold_start)) = false.
Proof.
  assert (token alice_response ≠ "") as H by discriminate.
  destruct (isAuthenticated_after alice_response cold_start alice_form "a" "b" H)
    as (H1 & _ & _ & H4 & _).
  exact (conj H (conj H1 H4)).
Defined.

(** C9: when [saveSession] is given a response whose token is the empty
    string, the authenticated stream's latest value is true while
    [isAuthenticated()] returns false. *)
Theorem saveSession_blank_token_disagree (response : AuthResponse) (s : State) :
  token response = "" →
  authStatus (saveSession response s) = true
  ∧ isAuthenticated (saveSession response s) = false.
Proof.
  intros Htok. split; [done |].
  unfold isAuthenticated, hasToken. rewrite saveSession_storage.
  rewrite decide_False, decide_True by done. by rewrite Htok.
Qed.

Lemma saveSession_blank_token_disagree_witness :
  token blank_token_response = ""
  ∧ authStatus (saveSession blank_token_response cold_start) = true
  ∧ isAuthenticated (saveSession blank_token_response cold_start) = false.
Proof.
  split; [reflexivity |].
  apply (saveSession_blank_token_disagree blank_token_response cold_start).
  reflexivity.
Defined.

(** C8, as stated, fails for a current user whose role is the empty
    string: [getUser()] returns the user and [getUserRole()] returns none. *)
Lemma getUserRole_blank_role :
  let s := saveSession {| token := "t"; user := guest |} cold_start in
  getUser s = Some guest ∧ getUserRole s ≠ Some (role guest).
Proof. split; [reflexivity | vm_compute; discriminate]. Qed.

(** C8 (amended): whatever the session state, [getUserRole()] returns the
    current user's role when [getUser()] returns a user whose role is not
    the empty string, and returns none when [getUser()] returns no user or
    a user whose role is the empty string. *)
Theorem getUserRole_getUser (s : State) :
  (∀ u, getUser s = Some u → role u ≠ "" → getUserRole s = Some (role u))
  ∧ (∀ u, getUser s = Some u → role u = "" → getUserRole s = None)
  ∧ (getUser s = None → getUserRole s = None).
Proof.
  unfold getUserRole. repeat split.
  - intros u -> Hrole. apply truthy_Str in Hrole. by rewrite Hrole.
  - by intros u -> ->.
  - by intros ->.
Qed.

Lemma getUserRole_getUser_witness :
  getUserRole (saveSession alice_response cold_start) = Some "admin"
  ∧ getUserRole (saveSession {| token := "t"; user := guest |} cold_start) = None
  ∧ getUserRole cold_start = None.
Proof.
  split; [| split].
  - apply (proj1 (getUserRole_getUser (saveSession alice_response cold_start)) alice);
      [reflexivity | discriminate].
  - apply (proj1 (proj2 (getUserRole_getUser
             (saveSession {| token := "t"; user := guest |} cold_start))) guest);
      reflexivity.
  - apply (proj2 (proj2 (getUserRole_getUser cold_start))). reflexivity.
Defined.

(** ** The failure path *)

Lemma opt_get_nullish v k : Js.opt_get v k ≠ Js.Undefined → Js.nullish v = false.
Proof. by destruct v. Qed.

Lemma get_opt_get v k : Js.nullish v = false → Js.get v k = Js.Normal (Js.opt_get v k).
Proof. by destruct v. Qed.

Lemma handleError_msg error s m :
  server_msg error = Js.Str m → m ≠ "" →
  handleError error s = Js.Normal (console_error error s, {| message := m |}).
Proof.
  unfold server_msg, handleError. intros Hmsg Hm.
  rewrite Hmsg. apply truthy_Str in Hm as ->.
  assert (Js.opt_get error "error" ≠ Js.Undefined) as Hinner
    by (intros E; by rewrite E in Hmsg).
  rewrite (get_opt_get error) by by eapply opt_get_nullish.
  simpl. rewrite (get_opt_get (Js.opt_get error "error"))
    by (eapply opt_get_nullish; by rewrite Hmsg).
  simpl. by rewrite Hmsg.
Qed.

Lemma handleError_errors error s elems msgs :
  Js.truthy (server_msg error) = false →
  field_errors error = Js.Arr elems →
  Js.array_map (λ e, Js.get e "msg") elems = Js.Normal msgs →
  handleError error s =
    Js.Normal (console_error error s, {| message := Js.join ", " msgs |}).
Proof.
  unfold server_msg, field_errors, handleError. intros -> Herrs Hmap.
  rewrite Herrs; simpl Js.isArray; cbv iota.
  assert (Js.opt_get error "error" ≠ Js.Undefined) as Hinner
    by (intros E; by rewrite E in Herrs).
  rewrite (get_opt_get error) by by eapply opt_get_nullish.
  simpl. rewrite (get_opt_get (Js.opt_get error "error"))
    by (eapply opt_get_nullish; by rewrite Herrs).
  simpl. rewrite Herrs, Hmap. done.
Qed.

Lemma handleError_status error s :
  Js.nullish error = false →
  Js.truthy (server_msg error) = false →
  Js.isArray (field_errors error) = false →
  handleError error s =
    Js.Normal (console_error error s,
               {| message := if Js.strict_eq_zero (Js.opt_get error "status")
                             then connectivity_message else generic_message |}).
Proof.
  unfold server_msg, field_errors, handleError. intros Herr -> ->.
  rewrite (get_opt_get error) by done. simpl.
  by destruct (Js.strict_eq_zero _).
Qed.


Lemma handleError_storage error s s' e :
  handleError error s = Js.Normal (s', e) → localStorage s' = localStorage s.
Proof.
  unfold handleError. intros H.
  destruct (_ : Js.completion Js.Value) in H; simpl in H; [| done].
  by inversion H.
Qed.

Lemma array_map_field_errors elems msgs :
  Forall2 field_error elems msgs →
  Js.array_map (λ e, Js.get e "msg") elems = Js.Normal (List.map Js.Str msgs).
Proof.
  induction 1 as [| e m elems msgs (props & -> & Hm) _ IH]; [done |].
  simpl. rewrite Hm. simpl. by rewrite IH.
Qed.

Lemma join_Str sep msgs : Js.join sep (List.map Js.Str msgs) = String.concat sep msgs.
Proof.
  unfold Js.join. f_equal. induction msgs as [| m msgs IH]; [done |].
  simpl. by rewrite IH.
Qed.

(** C5, as stated, fails when the server-supplied message field is present
    but empty: the generic fallback message is propagated instead of it. *)
Lemma handleError_blank_msg :
  server_msg blank_msg_failure = Js.Str ""
  ∧ (register alice_form (Failure blank_msg_failure) cold_start).2
      = Errored {| message := generic_message |}
  ∧ (register alice_form (Failure blank_msg_failure) cold_start).2
      ≠ Errored {| message := "" |}.
Proof. repeat split. vm_compute. discriminate. Qed.

(** C5 (amended): for every failed register or login whose failure object
    carries a server-supplied message field holding a non-empty string,
    the error propagated to the caller carries exactly that string; so for
    [{error: {msg: "Email taken"}}] it is "Email taken". *)
Theorem handleError_server_msg (error : Js.Value) (m : string) (s : State)
    (form : RegisterForm) (email password : string) :
  server_msg error = Js.Str m →
  m ≠ "" →
  (register form (Failure error) s).2 = Errored {| message := m |}
  ∧ (login email password (Failure error) s).2 = Errored {| message := m |}.
Proof.
  intros Hmsg Hm. unfold register, login, pipe.
  by rewrite (handleError_msg _ _ _ Hmsg Hm).
Qed.

Lemma handleError_server_msg_witness :
  (register alice_form (Failure email_taken_failure) cold_start).2
    = Errored {| message := "Email taken" |}
  ∧ (login "alice@example.org" "pw" (Failure email_taken_failure) cold_start).2
    = Errored {| message := "Email taken" |}.
Proof.
  apply (handleError_server_msg email_taken_failure "Email taken" cold_start
           alice_form "alice@example.org" "pw");
    [reflexivity | discriminate].
Defined.

(** C6: for every failed register or login whose failure object has no
    server-supplied message field but has an array of field-level error
    objects, the propagated message is the elements' [msg] strings joined
    with ", "; so for [{error: {errors: [{msg: "A"}, {msg: "B"}]}}] it is
    "A, B". *)
Theorem handleError_field_errors (error : Js.Value) (elems : list Js.Value)
    (msgs : list string) (s : State)
    (form : RegisterForm) (email password : string) :
  server_msg error = Js.Undefined →
  field_errors error = Js.Arr elems →
  Forall2 field_error elems msgs →
  (register form (Failure error) s).2 = Errored {| message := String.concat ", " msgs |}
  ∧ (login email password (Failure error) s).2
      = Errored {| message := String.concat ", " msgs |}.
Proof.
  intros Hmsg Herrs Hall. unfold register, login, pipe.
  rewrite (handleError_errors error s elems (List.map Js.Str msgs)); first last.
  - by apply array_map_field_errors.
  - done.
  - by rewrite Hmsg.
  - by rewrite join_Str.
Qed.

Lemma handleError_field_errors_witness :
  (register alice_form (Failure field_errors_failure) cold_start).2
    = Errored {| message := "A, B" |}
  ∧ (login "alice@example.org" "pw" (Failure field_errors_failure) cold_start).2
    = Errored {| message := "A, B" |}.
Proof.
  apply (handleError_field_errors field_errors_failure
           [Js.Obj [("msg", Js.Str "A")]; Js.Obj [("msg", Js.Str "B")]]
           ["A"; "B"] cold_start alice_form "alice@example.org" "pw").
  - reflexivity.
  - reflexivity.
  - repeat constructor; eexists; (split; [reflexivity | reflexivity]).
Defined.

(** C10: for a failed register or login whose failure object has no
    server-supplied message field and whose field-error array is present
    but empty, the propagated message is the empty string, which is
    neither the connectivity message nor the generic fallback message. *)
Theorem handleError_no_field_errors (error : Js.Value) (s : State)
    (form : RegisterForm) (email password : string) :
  server_msg error = Js.Undefined →
  field_errors error = Js.Arr [] →
  ((register form (Failure error) s).2 = Errored {| message := "" |}
   ∧ (login email password (Failure error) s).2 = Errored {| message := "" |})
  ∧ "" ≠ connectivity_message
  ∧ "" ≠ generic_message.
Proof.
  intros Hmsg Herrs. split; [| done].
  unfold register, login, pipe.
  rewrite (handleError_errors error s [] []); [done | by rewrite Hmsg | done | done].
Qed.

Lemma handleError_no_field_errors_witness :
  (register alice_form (Failure no_field_errors_failure) cold_start).2
    = Errored {| message := "" |}
  ∧ (login "alice@example.org" "pw" (Failure no_field_errors_failure) cold_start).2
    = Errored {| message := "" |}.
Proof.
  apply (handleError_no_field_errors no_field_errors_failure cold_start
           alice_form "alice@example.org" "pw"); reflexivity.
Defined.

(** ** The session-state invariant *)

Lemma saveSession_consistent response s : session_consistent (saveSession response s).
Proof.
  unfold session_consistent. rewrite !saveSession_storage. simpl. split; eauto.
Qed.

Lemma logout_consistent s : session_consistent (logout s).
Proof.
  unfold session_consistent. rewrite !logout_storage. simpl.
  split; intros [? ?]; done.
Qed.

Lemma pipe_consistent reply s :
  session_consistent s → session_consistent (pipe reply s).1.
Proof.
  intros Hs. destruct reply as [res | error]; simpl.
  - apply saveSession_consistent.
  - destruct (handleError error s) as [[s' e] |] eqn:E; simpl; [| done].
    apply handleError_storage in E.
    unfold session_consistent, getItem in *. by rewrite E.
Qed.

Lemma step_consistent op s : session_consistent s → session_consistent (step op s).
Proof.
  intros Hs. destruct op; simpl.
  - apply saveSession_consistent.
  - apply logout_consistent.
  - by apply pipe_consistent.
  - by apply pipe_consistent.
Qed.

(** C4: from a state whose token entry and user entry are both absent or
    both present, every sequence of [saveSession], [logout], [register]
    and [login] keeps the invariant after each operation: the token entry
    is stored if and only if the user entry is. *)
Theorem session_consistent_preserved (ops : list Operation) (s : State) :
  session_consistent s →
  Forall session_consistent (states_after ops s).
Proof.
  revert s. induction ops as [| op ops IH]; intros s Hs; simpl.
  - constructor.
  - constructor.
    + by apply step_consistent.
    + apply IH. by apply step_consistent.
Qed.

Lemma session_consistent_preserved_witness :
  session_consistent cold_start
  ∧ Forall session_consistent
      (states_after [OpRegister alice_form (Failure email_taken_failure);
                     OpLogin "alice@example.org" "pw" (Response alice_response);
                     OpLogout;
                     OpSaveSession blank_token_response] cold_start).
Proof.
  assert (session_consistent cold_start) as H.
  { split; intros [x Hx]; vm_compute in Hx; discriminate. }
  split; [exact H |].
  apply (session_consistent_preserved _ cold_start H).
Defined.

(** ** Beyond the session claims: the failure path on every failure value *)

Lemma array_map_msg elems :
  Forall (λ e, Js.nullish e = false) elems →
  Js.array_map (λ e, Js.get e "msg") elems
    = Js.Normal (List.map (λ e, Js.opt_get e "msg") elems).
Proof.
  induction 1 as [| e elems He _ IH]; [done |].
  simpl. rewrite (get_opt_get e) by done. simpl. by rewrite IH.
Qed.

Lemma array_map_msg_throws elems :
  Js.array_map (λ e, Js.get e "msg") elems = Js.ThrowTypeError
  ↔ Exists (λ e, Js.nullish e = true) elems.
Proof.
  induction elems as [| e elems IH]; simpl.
  - split; [done | by inversion 1].
  - rewrite Exists_cons, <- IH.
    destruct (Js.nullish e) eqn:He.
    + split; [by left |]. intros _. by destruct e.
    + rewrite (get_opt_get e) by done. simpl.
      destruct (Js.array_map _ elems); simpl.
      * split; [done | intros [H | H]; discriminate].
      * split; [by right | done].
Qed.

Lemma handleError_truthy_msg error s :
  Js.truthy (server_msg error) = true →
  handleError error s
    = Js.Normal (console_error error s, new_Error (server_msg error)).
Proof.
  unfold server_msg, handleError. intros Hmsg. rewrite Hmsg.
  assert (Js.opt_get (Js.opt_get error "error") "msg" ≠ Js.Undefined) as Hne
    by (intros E; by rewrite E in Hmsg).
  assert (Js.opt_get error "error" ≠ Js.Undefined) as Hinner
    by (intros E; by rewrite E in Hne).
  rewrite (get_opt_get error) by by eapply opt_get_nullish.
  simpl. by rewrite (get_opt_get (Js.opt_get error "error"))
    by by eapply opt_get_nullish.
Qed.

Lemma handleError_array_throws error s elems :
  Js.truthy (server_msg error) = false →
  field_errors error = Js.Arr elems →
  Js.array_map (λ e, Js.get e "msg") elems = Js.ThrowTypeError →
  handleError error s = Js.ThrowTypeError.
Proof.
  unfold server_msg, field_errors, handleError. intros -> Herrs Hmap.
  rewrite Herrs; simpl Js.isArray; cbv iota.
  assert (Js.opt_get error "error" ≠ Js.Undefined) as Hinner
    by (intros E; by rewrite E in Herrs).
  rewrite (get_opt_get error) by by eapply opt_get_nullish.
  simpl. rewrite (get_opt_get (Js.opt_get error "error"))
    by (eapply opt_get_nullish; by rewrite Herrs).
  simpl. by rewrite Herrs, Hmap.
Qed.

Lemma handleError_nullish error s :
  Js.nullish error = true → handleError error s = Js.ThrowTypeError.
Proof. by destruct error. Qed.

(** When [handleError] throws, and what it does otherwise. *)
Lemma handleError_cases error s :
  (unreadable error ∧ handleError error s = Js.ThrowTypeError)
  ∨ (¬ unreadable error
     ∧ ∃ e, handleError error s = Js.Normal (console_error error s, e)).
Proof.
  destruct (Js.nullish error) eqn:Hnull.
  { left. split; [by left | by apply handleError_nullish]. }
  destruct (Js.truthy (server_msg error)) eqn:Hmsg.
  { right. split.
    - intros [H | (H & _)]; congruence.
    - eexists. by apply handleError_truthy_msg. }
  destruct (field_errors error) as [| | b | n | t | elems | props] eqn:Herrs;
    try (right; split;
         [ intros [H | (_ & elems' & H & _)]; congruence
         | eexists; apply handleError_status; [done | done | by rewrite Herrs] ]).
  destruct (Js.array_map (λ e, Js.get e "msg") elems) as [msgs |] eqn:Hmap.
  - right. split.
    + intros [H | (_ & elems' & Heq & Hex)]; [congruence |].
      rewrite Herrs in Heq. injection Heq as <-.
      apply array_map_msg_throws in Hex. congruence.
    + eexists. by eapply handleError_errors.
  - left. split.
    + right. split; [done |]. exists elems. split; [done |].
      by apply array_map_msg_throws.
    + by eapply handleError_array_throws.
Qed.

(** X1: a failed [register] or [login] leaves the session as it was,
    whatever the failure value: the store and both subjects are untouched,
    so every getter answers as before. *)
Theorem failure_keeps_session (error : Js.Value) (s : State)
    (form : RegisterForm) (email password : string) :
  let after_register := (register form (Failure error) s).1 in
  let after_login := (login email password (Failure error) s).1 in
  (localStorage after_register = localStorage s
   ∧ getToken after_register = getToken s
   ∧ getUser after_register = getUser s
   ∧ getUserRole after_register = getUserRole s
   ∧ isAuthenticated after_register = isAuthenticated s
   ∧ authStatus after_register = authStatus s)
  ∧ after_login = after_register.
Proof.
  simpl. split; [| done]. unfold register, pipe.
  destruct (handleError_cases error s) as [(_ & ->) | (_ & e & ->)]; done.
Qed.

(** X2: on an unreadable failure (a nullish failure value, or no truthy
    message and a field-error array with a nullish element) [handleError]
    throws a [TypeError] of its own before it logs: the request fails with
    that [TypeError], nothing is logged and no state changes.  On every
    other failure whose field-error messages, where they are joined, are
    primitive values, the failure value is logged, once, and nothing else
    changes. *)
Theorem handleError_unreadable (error : Js.Value) (s : State)
    (form : RegisterForm) (email password : string) :
  (unreadable error →
     register form (Failure error) s = (s, ErroredTypeError)
     ∧ login email password (Failure error) s = (s, ErroredTypeError))
  ∧ (¬ unreadable error →
     joinable error →
     (register form (Failure error) s).1 = console_error error s
     ∧ (login email password (Failure error) s).1 = console_error error s
     ∧ console (console_error error s) = (console s ++ [error])%list).
Proof.
  unfold register, login, pipe.
  destruct (handleError_cases error s) as [(Hu & ->) | (Hu & e & ->)].
  - split; [done | by intros []].
  - split; [by intros ? | done].
Qed.

Lemma handleError_unreadable_witness :
  register alice_form (Failure null_field_error_failure) cold_start
    = (cold_start, ErroredTypeError)
  ∧ (register alice_form (Failure mixed_errors_failure) cold_start).1
      = console_error mixed_errors_failure cold_start.
Proof.
  split.
  - apply (proj1 (handleError_unreadable null_field_error_failure
                    cold_start alice_form "a" "b")).
    right. split; [reflexivity |]. eexists. split; [reflexivity |].
    constructor. reflexivity.
  - apply (proj2 (handleError_unreadable mixed_errors_failure
                    cold_start alice_form "a" "b")).
    + intros [H | (_ & elems & H & Hex)]; [discriminate |].
      injection H as <-.
      repeat (apply Exists_cons in Hex as [Hex | Hex]; [discriminate |]).
      by apply Exists_nil in Hex.
    + intros elems _ H. injection H as <-. by repeat constructor.
Defined.

Lemma join_segments elems segs :
  Forall2 segment elems segs →
  Forall (λ e, Js.nullish e = false) elems
  ∧ Js.join ", " (List.map (λ e, Js.opt_get e "msg") elems) = String.concat ", " segs.
Proof.
  unfold Js.join. intros H.
  enough (Forall (λ e, Js.nullish e = false) elems
          ∧ List.map (λ e, if Js.nullish e then "" else Js.ToString e)
              (List.map (λ e, Js.opt_get e "msg") elems) = segs) as [? ->] by done.
  induction H as [| e seg elems segs (He & Hseg) _ [IH1 IH2]]; [done |].
  split; [by constructor |]. simpl. rewrite IH2. f_equal.
  destruct Hseg as [-> | (-> & ->)]; done.
Qed.

(** X3: without a truthy server message, a field-error array wins over
    [status]: when each element is an object-like value whose [msg] is a
    string or is missing, the propagated message joins the elements'
    segments with ", ", a missing [msg] contributing an empty segment. *)
Theorem handleError_errors_precedence (error : Js.Value) (elems : list Js.Value)
    (segs : list string) (s : State)
    (form : RegisterForm) (email password : string) :
  Js.truthy (server_msg error) = false →
  field_errors error = Js.Arr elems →
  Forall2 segment elems segs →
  (register form (Failure error) s).2
    = Errored {| message := String.concat ", " segs |}
  ∧ (login email password (Failure error) s).2
    = Errored {| message := String.concat ", " segs |}.
Proof.
  intros Hmsg Herrs Hall. apply join_segments in Hall as [Hall Hjoin].
  unfold register, login, pipe.
  rewrite (handleError_errors error s elems _ Hmsg Herrs (array_map_msg _ Hall)).
  by rewrite Hjoin.
Qed.

Lemma handleError_errors_precedence_witness :
  (register alice_form (Failure mixed_errors_failure) cold_start).2
    = Errored {| message := "A, , " |}.
Proof.
  apply (handleError_errors_precedence mixed_errors_failure
           [Js.Obj [("msg", Js.Str "A")]; Js.Obj [("param", Js.Str "email")];
            Js.Obj [("msg", Js.Null)]]
           ["A"; ""; ""] cold_start alice_form "a" "b").
  - reflexivity.
  - reflexivity.
  - repeat constructor; right; split; reflexivity.
Defined.

(** ** Beyond the session claims: how the operations compose *)

Lemma State_eq (s1 s2 : State) :
  localStorage s1 = localStorage s2 →
  console s1 = console s2 →
  authStatusSubject s1 = authStatusSubject s2 →
  currentUserSubject s1 = currentUserSubject s2 →
  s1 = s2.
Proof. destruct s1, s2; simpl. by intros -> -> -> ->. Qed.

Lemma storage_ext (s1 s2 : State) :
  (∀ k, getItem k s1 = getItem k s2) → localStorage s1 = localStorage s2.
Proof. intros H. by apply map_eq. Qed.

Lemma pipe_storage reply s k :
  k ≠ "auth-token" → k ≠ "user" → getItem k (pipe reply s).1 = getItem k s.
Proof.
  intros Htok Huser. destruct reply as [res | error]; simpl.
  - rewrite saveSession_storage. by rewrite !decide_False.
  - destruct (handleError_cases error s) as [(_ & ->) | (_ & e & ->)]; done.
Qed.

Lemma step_storage op s k :
  k ≠ "auth-token" → k ≠ "user" → getItem k (step op s) = getItem k s.
Proof.
  intros Htok Huser. destruct op; simpl.
  - rewrite saveSession_storage. by rewrite !decide_False.
  - rewrite logout_storage. by rewrite !decide_False.
  - by apply pipe_storage.
  - by apply pipe_storage.
Qed.

(** X4: the module writes and removes no entry but ['auth-token'] and
    ['user']: along every sequence of its operations any other key of the
    store reads as it did at the start. *)
Theorem other_keys_untouched (ops : list Operation) (s : State) (k : string) :
  k ≠ "auth-token" →
  k ≠ "user" →
  Forall (λ s', getItem k s' = getItem k s) (states_after ops s).
Proof.
  intros Htok Huser. revert s.
  induction ops as [| op ops IH]; intros s; simpl; constructor.
  - by apply step_storage.
  - eapply Forall_impl; [apply IH |].
    simpl. intros s' ->. by apply step_storage.
Qed.

Lemma other_keys_untouched_witness :
  Forall (λ s', getItem "theme" s' = Some "dark")
    (states_after [OpLogin "alice@example.org" "pw" (Response alice_response);
                   OpRegister alice_form (Failure email_taken_failure);
                   OpLogout]
       (setItem "theme" "dark" cold_start)).
Proof.
  apply (other_keys_untouched _ (setItem "theme" "dark" cold_start) "theme");
    discriminate.
Defined.

(** X5: the last response wins: a [saveSession] replaces whatever session
    there was, so saving [r2] over a session saved from [r1], or over a
    logged-out state, gives the very state that saving [r2] alone gives. *)
Theorem saveSession_overrides (r1 r2 : AuthResponse) (s : State) :
  saveSession r2 (saveSession r1 s) = saveSession r2 s
  ∧ saveSession r2 (logout s) = saveSession r2 s.
Proof.
  split; apply State_eq; try done; apply storage_ext; intros k;
    rewrite !saveSession_storage, ?logout_storage; by repeat case_decide.
Qed.

(** X6: [logout] erases a session altogether and is idempotent: logging
    out after a [saveSession] gives the state that logging out without it
    gives, and a second [logout] changes nothing. *)
Theorem logout_erases (r : AuthResponse) (s : State) :
  logout (saveSession r s) = logout s
  ∧ logout (logout s) = logout s.
Proof.
  split; apply State_eq; try done; apply storage_ext; intros k;
    rewrite !logout_storage, ?saveSession_storage; by repeat case_decide.
Qed.

(** ** Beyond the session claims: the cache and the store *)

Lemma saveSession_mirrors r s : user_mirrors_store (saveSession r s).
Proof. unfold user_mirrors_store. by rewrite saveSession_storage. Qed.

Lemma logout_mirrors s : user_mirrors_store (logout s).
Proof. unfold user_mirrors_store. by rewrite logout_storage. Qed.

Lemma pipe_mirrors reply s :
  user_mirrors_store s → user_mirrors_store (pipe reply s).1.
Proof.
  intros Hs. destruct reply as [res | error]; simpl.
  - apply saveSession_mirrors.
  - destruct (handleError_cases error s) as [(_ & ->) | (_ & e & ->)]; done.
Qed.

(** X7: the cached user mirrors the stored entry: from a state where the
    ['user'] entry is the serialisation of the user [getUser()] returns
    (and absent when it returns none), every sequence of operations keeps
    it so after each step. *)
Theorem user_mirrors_store_preserved (ops : list Operation) (s : State) :
  user_mirrors_store s →
  Forall user_mirrors_store (states_after ops s).
Proof.
  revert s. induction ops as [| op ops IH]; intros s Hs; simpl; [constructor |].
  assert (user_mirrors_store (step op s)) as Hstep.
  { destruct op; simpl.
    - apply saveSession_mirrors.
    - apply logout_mirrors.
    - by apply pipe_mirrors.
    - by apply pipe_mirrors. }
  constructor; [done | by apply IH].
Qed.

Lemma user_mirrors_store_preserved_witness :
  user_mirrors_store cold_start
  ∧ Forall user_mirrors_store
      (states_after [OpLogin "alice@example.org" "pw" (Response alice_response);
                     OpRegister alice_form (Failure offline_failure);
                     OpLogout] cold_start).
Proof.
  assert (user_mirrors_store cold_start) as H by reflexivity.
  split; [exact H |].
  apply (user_mirrors_store_preserved _ cold_start H).
Defined.

(** ** Beyond the session claims: constructing the service *)

Lemma stringify_truthy u : Js.truthy (Js.Str (JSON.stringify u)) = true.
Proof. done. Qed.

Lemma saveSession_flag r s : flag_follows_store (saveSession r s).
Proof.
  unfold flag_follows_store, isAuthenticated, hasToken, getToken.
  rewrite saveSession_storage, decide_False, decide_True by done.
  destruct (token r) as [| c t]; [by right | by left].
Qed.

Lemma logout_flag s : flag_follows_store (logout s).
Proof.
  left. unfold isAuthenticated, hasToken.
  by rewrite logout_storage, decide_False, decide_True.
Qed.

Lemma step_flag op s : flag_follows_store s → flag_follows_store (step op s).
Proof.
  intros Hs.
  assert (∀ reply, flag_follows_store (pipe reply s).1) as Hpipe.
  { intros [res | error]; simpl; [apply saveSession_flag |].
    destruct (handleError_cases error s) as [(_ & ->) | (_ & e & ->)]; done. }
  destruct op; simpl; auto using saveSession_flag, logout_flag.
Qed.

Lemma states_after_flag ops s :
  flag_follows_store s → Forall flag_follows_store (states_after ops s).
Proof.
  revert s. induction ops as [| op ops IH]; intros s Hs; simpl; constructor.
  - by apply step_flag.
  - apply IH. by apply step_flag.
Qed.

Section ConstructionProperties.

Variable JSON_parse : string → option (option User).

Lemma construct_stored s stored :
  getStoredUser JSON_parse s = Some stored →
  construct JSON_parse s
    = Some {| localStorage := localStorage s;
              console := console s;
              authStatusSubject := {| value := hasToken s |};
              currentUserSubject := {| value := stored |} |}.
Proof. unfold construct. by intros ->. Qed.

(** X9: constructing the service throws exactly when a non-empty
    ['user'] entry is stored that [JSON.parse] rejects; an entry that is
    missing or empty is never parsed and gives a service without a user. *)
Theorem construct_throws_iff (s : State) :
  (construct JSON_parse s = None
   ↔ ∃ raw, getItem "user" s = Some raw ∧ raw ≠ "" ∧ JSON_parse raw = None)
  ∧ (getItem "user" s = None ∨ getItem "user" s = Some "" →
     ∃ s', construct JSON_parse s = Some s' ∧ getUser s' = None).
Proof.
  unfold construct, getStoredUser. split.
  - destruct (getItem "user" s) as [raw |] eqn:Hraw; simpl.
    + destruct raw as [| c raw]; simpl.
      * split; [done |]. by intros (raw' & [= <-] & Hne & _).
      * destruct (JSON_parse (String c raw)) as [stored |] eqn:Hparse; simpl.
        -- split; [done |]. intros (raw' & [= <-] & _ & Hp). congruence.
        -- split; [| done]. intros _. by exists (String c raw).
    + split; [done |]. by intros (raw' & [=] & _).
  - intros [-> | ->]; simpl; by eexists.
Qed.

(** X10: in the service as constructed over any store, and after every
    sequence of operations on it, the authenticated stream's latest value
    and [isAuthenticated()] agree, except that the stream is true over a
    stored empty token. *)
Theorem flag_follows_store_reachable (s0 s : State) (ops : list Operation) :
  construct JSON_parse s0 = Some s →
  Forall flag_follows_store (s :: states_after ops s).
Proof.
  intros Hc.
  assert (flag_follows_store s) as Hs.
  { unfold construct in Hc.
    destruct (getStoredUser JSON_parse s0) as [stored |]; [| done].
    injection Hc as <-. by left. }
  constructor; [done | by apply states_after_flag].
Qed.

(** X11: a logged-out state survives a reconstruction of the service:
    constructing over what [logout()] leaves never consults [JSON.parse],
    does not throw, and gives that very state. *)
Theorem construct_after_logout (s : State) :
  construct JSON_parse (logout s) = Some (logout s).
Proof.
  rewrite (construct_stored _ None).
  - f_equal. apply State_eq; try done. simpl. f_equal.
    change (hasToken (logout s)) with (isAuthenticated (logout s)).
    unfold isAuthenticated, hasToken.
    by rewrite logout_storage, decide_False, decide_True.
  - unfold getStoredUser. by rewrite logout_storage, decide_True.
Qed.

(** X12: when [JSON.parse] reads the stored entry back as the user that
    was saved, a service constructed over what [saveSession] leaves has
    that user and that token, its stream says what [isAuthenticated()]
    says, and for a non-empty token it is the very state [saveSession]
    left. *)
Theorem construct_after_saveSession (r : AuthResponse) (s : State) :
  JSON_parse (JSON.stringify (user r)) = Some (Some (user r)) →
  ∃ s', construct JSON_parse (saveSession r s) = Some s'
        ∧ getUser s' = Some (user r)
        ∧ getToken s' = Some (token r)
        ∧ authStatus s' = isAuthenticated s'
        ∧ (token r ≠ "" → s' = saveSession r s).
Proof.
  intros Hparse. eexists. split.
  - apply construct_stored. unfold getStoredUser.
    rewrite saveSession_storage, decide_True by done.
    rewrite stringify_truthy. exact Hparse.
  - repeat split.
    + unfold getToken, getItem. simpl. by simplify_map_eq.
    + intros Htok. apply State_eq; try done. simpl. f_equal.
      change (hasToken (saveSession r s)) with (isAuthenticated (saveSession r s)).
      unfold isAuthenticated, hasToken.
      rewrite saveSession_storage, decide_False, decide_True by done.
      apply truthy_Str in Htok. by rewrite Htok.
Qed.

End ConstructionProperties.

Lemma construct_throws_iff_witness :
  construct Reader.parse (setItem "user" "oops" cold_start) = None
  ∧ ∃ s', construct Reader.parse (setItem "user" "" cold_start) = Some s'
          ∧ getUser s' = None.
Proof.
  split.
  - apply (proj1 (construct_throws_iff Reader.parse (setItem "user" "oops" cold_start))).
    exists "oops". split; [reflexivity | split; [discriminate | reflexivity]].
  - apply (proj2 (construct_throws_iff Reader.parse (setItem "user" "" cold_start))).
    right. reflexivity.
Defined.

Lemma flag_follows_store_reachable_witness :
  Forall flag_follows_store
    (setItem "auth-token" "" cold_start
     :: states_after [OpSaveSession blank_token_response;
                      OpLogin "alice@example.org" "pw" (Failure offline_failure);
                      OpLogout]
          (setItem "auth-token" "" cold_start)).
Proof.
  apply (flag_follows_store_reachable Reader.parse (setItem "auth-token" "" cold_start)).
  reflexivity.
Defined.

Lemma construct_after_saveSession_witness :
  ∃ s', construct Reader.parse (saveSession alice_response cold_start) = Some s'
        ∧ getUser s' = Some alice
        ∧ getToken s' = Some "t0k3n"
        ∧ authStatus s' = isAuthenticated s'
        ∧ (token alice_response ≠ "" → s' = saveSession alice_response cold_start).
Proof.
  apply (construct_after_saveSession Reader.parse alice_response cold_start).
  reflexivity.
Defined.

(** ** Beyond the session claims: a desynchronised store *)

(** X13: whatever the store held, also with only one of the two entries,
    [saveSession] and [logout] leave the token entry and the user entry
    present together or absent together; a failed [register] or [login]
    repairs nothing and breaks nothing. *)
Theorem session_consistent_restored (r : AuthResponse) (error : Js.Value)
    (s : State) (form : RegisterForm) (email password : string) :
  session_consistent (saveSession r s)
  ∧ session_consistent (logout s)
  ∧ session_consistent (register form (Response r) s).1
  ∧ session_consistent (login email password (Response r) s).1
  ∧ (session_consistent (register form (Failure error) s).1 ↔ session_consistent s)
  ∧ (session_consistent (login email password (Failure error) s).1
     ↔ session_consistent s).
Proof.
  assert (session_consistent (pipe (Failure error) s).1 ↔ session_consistent s) as H.
  { simpl. destruct (handleError_cases error s) as [(_ & ->) | (_ & e & ->)]; done. }
  refine (conj _ (conj _ (conj _ (conj _ (conj H H)))));
    first [apply saveSession_consistent | apply logout_consistent].
Qed.

(** ** The failure path, every branch *)




